(** * textindex.py: an inverted text index persisted in redis

    Shallow embedding of [src/python/text/textindex.py] (class [Index], the
    helpers [extract_descriptions] and [get_text_from_file], and the loop of
    [main]) together with the properties of the index that the
    specification states.

    Conventions of the embedding:
    - a Python 2 byte string is a [string]; [None] is the [None] of
      [option];
    - redis db 0 (token -> set of filenames) is a
      [gmap string (gset string)], redis db 1 (filename -> text) is a
      [gmap string string];
    - a Python [set] of tuples is a [gset] of pairs;
    - none of the methods of [Index] contains a [raise], so each of them is
      a total function on the index state;
    - [nltk.word_tokenize], the stemmer and the Vision service are library
      code: they are parameters of the model. *)

From stdpp Require Import gmap strings list fin_maps.
From Stdlib Require Import Ascii String.

#[local] Set Warnings "-clear-no-such-hyp".
Local Open Scope string_scope.

(** ** Byte strings *)

(** [str.lower] on a byte string: the letters [A]..[Z] go to [a]..[z],
    every other byte is kept. *)
Definition lower_ascii (c : ascii) : ascii :=
  let n := N_of_ascii c in
  if ((65 <=? n) && (n <=? 90))%N then ascii_of_N (n + 32) else c.

Fixpoint lower (s : string) : string :=
  match s with
  | EmptyString => EmptyString
  | String c s' => String (lower_ascii c) (lower s')
  end.

(** Truth value of [res] in [if res:], for [res] a string or [None]. *)
Definition truthy (res : option string) : bool :=
  match res with
  | Some (String _ _) => true
  | Some EmptyString => false
  | None => false
  end.

(** Truth value of a set in [if conjunct]: a set is true when it has a
    member. *)
Definition set_truthy `{Countable A} (X : gset A) : bool :=
  bool_decide (X ≠ ∅).

(** ** The redis commands the index uses *)

Module redis.

(** [SMEMBERS key]: the members of the set at [key], the empty set when
    the key is unset. *)
Definition smembers (db : gmap string (gset string)) (key : string)
  : gset string :=
  default ∅ (db !! key).

(** [SADD key member]. *)
Definition sadd (db : gmap string (gset string)) (key member : string)
  : gmap string (gset string) :=
  <[key := smembers db key ∪ {[member]}]> db.

(** [GET key]: [None] when the key is unset. *)
Definition get (db : gmap string string) (key : string) : option string :=
  db !! key.

(** [SET key value]. *)
Definition set (db : gmap string string) (key value : string)
  : gmap string string :=
  <[key := value]> db.

End redis.

(** ** class Index *)

(** The attributes of an [Index] object; the two redis clients stand for
    the contents of db 0 and db 1.  ([__unique_id] is never read.) *)
Record Index := mkIndex {
  redis_token_client : gmap string (gset string);
  redis_docs_client : gmap string string;
  tokenizer : string → list string;
  stemmer : option (string → string);
  stopwords : gset string
}.

(** [Index.__init__], over the redis contents that persist between runs:
    [self.stopwords = set(stopwords) if stopwords else set()]. *)
Definition Index_init (db0 : gmap string (gset string))
    (db1 : gmap string string) (tokenizer : string → list string)
    (stemmer : option (string → string)) (stopwords : list string) : Index :=
  {| redis_token_client := db0;
     redis_docs_client := db1;
     tokenizer := tokenizer;
     stemmer := stemmer;
     stopwords := list_to_set stopwords |}.

(** [if self.stemmer: word = self.stemmer.stem(word)]. *)
Definition stem (self : Index) (word : string) : string :=
  match stemmer self with
  | Some stemmer => stemmer word
  | None => word
  end.

(** The list comprehension of [lookup]:
    [set([(id, self.redis_docs_client.get(id)) for id in docs_with_word])]. *)
Definition hits (self : Index) (docs_with_word : gset string)
  : gset (string * option string) :=
  set_map (λ id, (id, redis.get (redis_docs_client self) id)) docs_with_word.

(** One iteration of the loop of [lookup]. *)
Definition lookup_step (self : Index) (conjunct : gset (string * option string))
    (word : string) : gset (string * option string) :=
  let word := lower word in
  let word := stem self word in
  let docs_with_word := redis.smembers (redis_token_client self) word in
  let hits := hits self docs_with_word in
  if set_truthy conjunct then conjunct ∩ hits else hits.

(** [Index.lookup], on the sequence of its arguments. *)
Definition lookup (self : Index) (words : list string)
  : gset (string * option string) :=
  foldl (lookup_step self) ∅ words.

(** [Index.document_is_processed]: the returned boolean and the lines
    printed. *)
Definition document_is_processed (self : Index) (filename : string)
  : bool * list string :=
  let res := redis.get (redis_docs_client self) filename in
  if truthy res then
    (true, [filename +:+ " already added to index."])
  else if bool_decide (res = Some "") then
    (true, ["File " +:+ filename +:+
            " was already checked, and contains no text."])
  else (false, []).

(** [Index.set_contains_no_text]. *)
Definition set_contains_no_text (self : Index) (filename : string) : Index :=
  {| redis_token_client := redis_token_client self;
     redis_docs_client := redis.set (redis_docs_client self) filename "";
     tokenizer := tokenizer self;
     stemmer := stemmer self;
     stopwords := stopwords self |}.

Section WithTokenizer.

(** [nltk.word_tokenize], which [add] calls directly (not
    [self.tokenizer]). *)
Variable word_tokenize : string → list string.

(** One iteration of the loop of [add], on the contents of db 0. *)
Definition add_step (self : Index) (filename : string)
    (db : gmap string (gset string)) (token : string)
  : gmap string (gset string) :=
  if bool_decide (token ∈ stopwords self) then db
  else if bool_decide (token ∈ ["."; ","; ":"; ""]) then db
  else
    let token := stem self token in
    redis.sadd db token filename.

(** [Index.add]. *)
Definition add (self : Index) (filename document : string) : Index :=
  let db0 :=
    foldl (add_step self filename) (redis_token_client self)
          (map lower (word_tokenize document)) in
  {| redis_token_client := db0;
     redis_docs_client := redis.set (redis_docs_client self) filename document;
     tokenizer := tokenizer self;
     stemmer := stemmer self;
     stopwords := stopwords self |}.

(** ** The Vision service and the ingestion loop *)

(** An entry of [textAnnotations]: a dict that may lack the key
    ['description']. *)
Record annotation := mkAnnotation { description : option string }.

(** What [request.execute] does for an image: it returns a response,
    with or without text annotations, or raises one of the two exceptions
    that [detect_text] catches. *)
Inductive execute_outcome :=
| Response (textAnnotations : option (list annotation))
| HttpError
| KeyError.

(** [VisionApi.detect_text]: the annotations, [[]] when the response has
    none, and [None] (the function falls off its end) after a caught
    exception. *)
Definition detect_text (vision : string → execute_outcome)
    (image_file : string) : option (list annotation) :=
  match vision image_file with
  | Response (Some text_response) => Some text_response
  | Response None => Some []
  | HttpError => None
  | KeyError => None
  end.

(** The loop of [extract_descriptions] that builds [document]; a
    fragment without ['description'] is skipped (its [KeyError] is
    caught). *)
Definition concat_descriptions (texts : list annotation) : string :=
  foldl (λ document text,
           match description text with
           | Some d => document +:+ d
           | None => document
           end) "" texts.

(** [extract_descriptions]. *)
Definition extract_descriptions (input_filename : string) (index : Index)
    (texts : option (list annotation)) : Index :=
  match texts with
  | Some ((_ :: _) as texts) =>
      add index input_filename (concat_descriptions texts)
  | Some [] => set_contains_no_text index input_filename
  | None => index
  end.

(** [get_text_from_file]. *)
Definition get_text_from_file (vision : string → execute_outcome)
    (index : Index) (input_filename : string) : Index :=
  let texts := detect_text vision input_filename in
  extract_descriptions input_filename index texts.

(** One iteration of the loop of [main]. *)
Definition main_step (vision : string → execute_outcome) (index : Index)
    (filename : string) : Index :=
  if (document_is_processed index filename).1 then index
  else get_text_from_file vision index filename.

(** The loop of [main] over [fileslist], from the index state found in
    redis. *)
Definition main (vision : string → execute_outcome) (index : Index)
    (fileslist : list string) : Index :=
  foldl (main_step vision) index fileslist.

End WithTokenizer.


(** ** Concrete collaborators for the examples *)

(** A whitespace tokenizer: the maximal runs of characters other than the
    space.  On a text of words separated by single spaces it returns the
    words, as [nltk.word_tokenize] does there. *)
Fixpoint split_spaces (word : string) (s : string) : list string :=
  match s with
  | EmptyString => if bool_decide (word = "") then [] else [word]
  | String c s' =>
      if bool_decide (c = " "%char) then
        (if bool_decide (word = "") then [] else [word]) ++ split_spaces "" s'
      else split_spaces (word +:+ String c "") s'
  end.

Definition whitespace_tokenize (s : string) : list string :=
  split_spaces "" s.

(** A toy stemmer: it removes one final [s]. *)
Fixpoint strip_s (word : string) : string :=
  match word with
  | EmptyString => EmptyString
  | String c EmptyString => if bool_decide (c = "s"%char) then "" else word
  | String c word' => String c (strip_s word')
  end.

(** An index over empty redis databases. *)
Definition fresh_index (stemmer : option (string → string))
    (stopwords : list string) : Index :=
  Index_init ∅ ∅ whitespace_tokenize stemmer stopwords.

(** ** The terms of a document *)

(** A lowercased token passes the two [continue] tests of the loop of
    [add]. *)
Definition kept (self : Index) (token : string) : Prop :=
  (token ∉ stopwords self) ∧ (token ∉ ["."; ","; ":"; ""]).

#[global] Instance kept_dec self token : Decision (kept self token).
Proof. unfold kept. apply _. Defined.

(** The terms that [add] writes for a document, as a pipeline: tokenize,
    lowercase, drop the stopwords, drop the four literal tokens, stem.
    [add_tokens_normalize] shows that the loop of [add] writes exactly
    these. *)
Definition normalize (word_tokenize : string → list string) (self : Index)
    (document : string) : list string :=
  stem self <$>
    filter (λ token, token ∉ ["."; ","; ":"; ""])
      (filter (λ token, token ∉ stopwords self)
         (lower <$> word_tokenize document)).

(** The normalizer of the specification, which drops every token that is
    empty or made of punctuation characters only (the printable ASCII
    characters that are neither letters nor digits nor the space). *)
Definition punctuation_char (c : ascii) : bool :=
  let n := N_of_ascii c in
  (((33 <=? n) && (n <=? 47)) || ((58 <=? n) && (n <=? 64)) ||
   ((91 <=? n) && (n <=? 96)) || ((123 <=? n) && (n <=? 126)))%N.

Fixpoint pure_punctuation (token : string) : bool :=
  match token with
  | EmptyString => true
  | String c token' => punctuation_char c && pure_punctuation token'
  end.

Definition normalize_spec (word_tokenize : string → list string) (self : Index)
    (document : string) : list string :=
  stem self <$>
    filter (λ token, pure_punctuation token = false)
      (filter (λ token, token ∉ stopwords self)
         (lower <$> word_tokenize document)).

(** ** Example states *)

(** Closed decidable statements are settled by evaluation. *)
Ltac by_evaluation := apply (bool_decide_unpack _); vm_compute; exact I.

(** The scenario of the specification: one image whose text is
    [Cats and Dogs play], no stemmer, and the stopword [and]. *)
Definition example_index : Index :=
  add whitespace_tokenize (fresh_index None ["and"])
      "img1.png" "Cats and Dogs play".

(** A posting that names a file of which db 1 knows nothing. *)
Definition dangling_index : Index :=
  {| redis_token_client := {[ "dog" := {[ "ghost.png" ]} ]};
     redis_docs_client := ∅;
     tokenizer := whitespace_tokenize;
     stemmer := None;
     stopwords := ∅ |}.

(** A Vision service that fails on [b.png], finds the text [Dogs run] in
    [c.png], finds no text in [d.png] and fails on everything else. *)
Definition example_vision (image_file : string) : execute_outcome :=
  if bool_decide (image_file = "c.png") then
    Response (Some [mkAnnotation (Some "Dogs "); mkAnnotation None;
                    mkAnnotation (Some "run")])
  else if bool_decide (image_file = "d.png") then Response None
  else HttpError.


(** ** [print_lookup] and [get_words] *)

(** [str] of the second component of a hit, as the format [%s] prints it:
    the stored text, or [None] for a missing one. *)
Definition str_of_text (text : option string) : string :=
  match text with
  | Some text => text
  | None => "None"
  end.

(** The line feed of the format string of [print_lookup]. *)
Definition newline : string := String (ascii_of_N 10) "".

(** [Index.print_lookup]: the strings printed, one per call of [print].
    The hits are printed in the iteration order of the set, which Python
    leaves open; [elements] fixes one. *)
Definition print_lookup (self : Index) (words : list string) : list string :=
  let hits := lookup self words in
  if negb (set_truthy hits) then ["No hits found."]
  else
    (λ i : string * option string,
       "***Image " +:+ i.1 +:+ " has text:" +:+ newline +:+ str_of_text i.2)
      <$> elements hits.

(** The class [\w] of a byte-string pattern without flags: the ASCII
    letters and digits and the underscore. *)
Definition word_char (c : ascii) : bool :=
  let n := N_of_ascii c in
  (((48 <=? n) && (n <=? 57)) || ((65 <=? n) && (n <=? 90)) || (n =? 95) ||
   ((97 <=? n) && (n <=? 122)))%N.

(** The word under construction is emitted when it is not empty. *)
Definition emit_word (word : string) : list string :=
  if bool_decide (word = "") then [] else [word].

(** [findall] for the pattern [\w+]: the maximal runs of word characters,
    from left to right; [word] is the run read so far. *)
Fixpoint findall_words (word : string) (text : string) : list string :=
  match text with
  | EmptyString => emit_word word
  | String c text' =>
      if word_char c then findall_words (word +:+ String c "") text'
      else emit_word word ++ findall_words "" text'
  end.

(** [get_words]. *)
Definition get_words (text : string) : list string :=
  findall_words "" text.

(** Every character of a string is a word character. *)
Fixpoint all_word_chars (s : string) : bool :=
  match s with
  | EmptyString => true
  | String c s' => word_char c && all_word_chars s'
  end.

(** ** The invariant of the index *)

(** A file is in the posting of a term exactly when db 1 holds a text for
    the file of which the term is one of the terms. *)
Definition index_invariant (word_tokenize : string → list string)
    (self : Index) : Prop :=
  ∀ term id,
    id ∈ redis.smembers (redis_token_client self) term ↔
    ∃ text, redis_docs_client self !! id = Some text ∧
            term ∈ normalize word_tokenize self text.


(** ** Byte strings: [lower] *)

Lemma lower_ascii_idemp (c : ascii) :
  lower_ascii (lower_ascii c) = lower_ascii c.
Proof. by destruct c as [[] [] [] [] [] [] [] []]. Qed.

Lemma lower_idemp (s : string) : lower (lower s) = lower s.
Proof.
  induction s as [|c s IH]; simpl; [done|].
  by rewrite lower_ascii_idemp, IH.
Qed.

(** ** The redis commands *)

Lemma smembers_sadd db key member key' :
  redis.smembers (redis.sadd db key member) key' =
  if decide (key = key') then redis.smembers db key ∪ {[member]}
  else redis.smembers db key'.
Proof.
  unfold redis.sadd, redis.smembers at 1.
  rewrite lookup_insert. by case_decide; subst.
Qed.

Lemma elem_of_smembers_sadd db key member key' x :
  x ∈ redis.smembers (redis.sadd db key member) key' ↔
  x ∈ redis.smembers db key' ∨ (key' = key ∧ x = member).
Proof. rewrite smembers_sadd. case_decide; set_solver. Qed.

(** [SADD] of a member that the set already has changes nothing. *)
Lemma sadd_member db key member :
  member ∈ redis.smembers db key → redis.sadd db key member = db.
Proof.
  intros Hin. unfold redis.sadd. apply insert_id.
  unfold redis.smembers in *.
  destruct (db !! key) as [X|] eqn:E; simpl in *; [|set_solver].
  f_equal. set_solver.
Qed.

(** ** [lookup] *)

Lemma set_truthy_empty `{Countable A} : set_truthy (∅ : gset A) = false.
Proof. unfold set_truthy. by rewrite bool_decide_eq_false_2; [|intros []]. Qed.

(** The result for one word: the hits of its stem. *)
Lemma lookup_one self word :
  lookup self [word] =
  hits self (redis.smembers (redis_token_client self) (stem self (lower word))).
Proof. unfold lookup, lookup_step; simpl. by rewrite set_truthy_empty. Qed.

Lemma elem_of_hits self docs_with_word id text :
  (id, text) ∈ hits self docs_with_word ↔
  id ∈ docs_with_word ∧ text = redis_docs_client self !! id.
Proof.
  unfold hits, redis.get. rewrite elem_of_map. split.
  - intros (id' & [= -> ->] & Hin). done.
  - intros [Hin ->]. by exists id.
Qed.

(** The result for two words, as the conditional expression of the loop
    computes it. *)
Lemma lookup_two self a b :
  lookup self [a; b] =
  if set_truthy (lookup self [a]) then lookup self [a] ∩ lookup self [b]
  else lookup self [b].
Proof.
  rewrite !lookup_one. unfold lookup, lookup_step; simpl.
  by rewrite set_truthy_empty.
Qed.

(** When the first word has a hit, the result for two words is the
    intersection. *)
Lemma lookup_two_inhabited self a b :
  lookup self [a] ≠ ∅ →
  lookup self [a; b] = lookup self [a] ∩ lookup self [b].
Proof.
  intros Hne. rewrite lookup_two. unfold set_truthy.
  by rewrite bool_decide_eq_true_2.
Qed.

(** When the first word has no hit, the result for two words is the
    result for the second word alone. *)
Lemma lookup_two_leak self a b :
  lookup self [a] = ∅ → lookup self [a; b] = lookup self [b].
Proof. intros He. rewrite lookup_two, He. by rewrite set_truthy_empty. Qed.


(** ** [add]: the terms it writes *)

Section AddProperties.

Variable word_tokenize : string → list string.

Lemma filter_kept self (tokens : list string) :
  filter (λ token, token ∉ ["."; ","; ":"; ""])
    (filter (λ token, token ∉ stopwords self) tokens) =
  filter (kept self) tokens.
Proof.
  rewrite list_filter_filter. apply list_filter_iff.
  intros token. unfold kept. naive_solver.
Qed.

(** The loop of [add] is a sequence of [SADD]s, one per kept token. *)
Lemma add_step_foldl self filename (tokens : list string) db :
  foldl (add_step self filename) db tokens =
  foldl (λ db term, redis.sadd db term filename) db
        (stem self <$> filter (kept self) tokens).
Proof.
  revert db. induction tokens as [|token tokens IH]; intros db; [done|].
  rewrite filter_cons. simpl. rewrite IH. unfold add_step at 1.
  destruct (decide (kept self token)) as [[Hs Hp]|Hn].
  - by rewrite (bool_decide_eq_false_2 _ Hs), (bool_decide_eq_false_2 _ Hp).
  - repeat case_bool_decide; try done.
    exfalso. apply Hn. by split.
Qed.

Lemma add_tokens_normalize self filename document :
  redis_token_client (add word_tokenize self filename document) =
  foldl (λ db term, redis.sadd db term filename) (redis_token_client self)
        (normalize word_tokenize self document).
Proof. unfold add, normalize; simpl. by rewrite add_step_foldl, filter_kept. Qed.

Lemma elem_of_smembers_sadd_all (terms : list string) filename db term x :
  x ∈ redis.smembers
        (foldl (λ db term, redis.sadd db term filename) db terms) term ↔
  x ∈ redis.smembers db term ∨ (x = filename ∧ term ∈ terms).
Proof.
  revert db. induction terms as [|t terms IH]; intros db; simpl.
  { set_solver. }
  rewrite IH, elem_of_smembers_sadd, elem_of_cons. naive_solver.
Qed.

(** A sequence of [SADD]s of members that are all present changes
    nothing. *)
Lemma sadd_all_member (terms : list string) filename db :
  (∀ term, term ∈ terms → filename ∈ redis.smembers db term) →
  foldl (λ db term, redis.sadd db term filename) db terms = db.
Proof.
  induction terms as [|t terms IH]; intros Hall; simpl; [done|].
  rewrite sadd_member by (apply Hall; left).
  apply IH. intros term Hin. apply Hall. by right.
Qed.

Lemma elem_of_normalize self document term :
  term ∈ normalize word_tokenize self document ↔
  ∃ token, token ∈ word_tokenize document ∧
           (lower token ∉ stopwords self) ∧
           (lower token ∉ ["."; ","; ":"; ""]) ∧
           term = stem self (lower token).
Proof.
  unfold normalize. rewrite list_elem_of_fmap. split.
  - intros (t & -> & Hin).
    apply list_elem_of_filter in Hin as [Hp Hin].
    apply list_elem_of_filter in Hin as [Hs Hin].
    apply list_elem_of_fmap in Hin as (token & -> & Hin).
    by exists token.
  - intros (token & Hin & Hs & Hp & ->).
    exists (lower token). split; [done|].
    apply list_elem_of_filter. split; [done|].
    apply list_elem_of_filter. split; [done|].
    apply list_elem_of_fmap. by exists token.
Qed.

(** The postings after [add]: the old ones, and [filename] under each term
    of the document. *)
Lemma elem_of_smembers_add self filename document term x :
  x ∈ redis.smembers
        (redis_token_client (add word_tokenize self filename document)) term ↔
  x ∈ redis.smembers (redis_token_client self) term ∨
  (x = filename ∧ term ∈ normalize word_tokenize self document).
Proof. by rewrite add_tokens_normalize, elem_of_smembers_sadd_all. Qed.

Lemma docs_add self filename document :
  redis_docs_client (add word_tokenize self filename document) =
  <[filename := document]> (redis_docs_client self).
Proof. done. Qed.

Lemma add_no_terms self filename document :
  normalize word_tokenize self document = [] →
  redis_token_client (add word_tokenize self filename document) =
  redis_token_client self.
Proof. intros Hn. by rewrite add_tokens_normalize, Hn. Qed.

End AddProperties.


(** ** The ingestion loop *)

Section MainProperties.

Variable word_tokenize : string → list string.
Variable vision : string → execute_outcome.

Lemma document_is_processed_Some self filename :
  (document_is_processed self filename).1 = true ↔
  is_Some (redis_docs_client self !! filename).
Proof.
  unfold document_is_processed, redis.get.
  destruct (redis_docs_client self !! filename) as [[|c text]|]; simpl.
  - split; [by eauto|done].
  - split; [by eauto|done].
  - split; [done|]. by intros [? ?].
Qed.

Lemma document_is_processed_None self filename :
  (document_is_processed self filename).1 = false ↔
  redis_docs_client self !! filename = None.
Proof.
  rewrite <-not_true_iff_false, document_is_processed_Some.
  by rewrite eq_None_not_Some.
Qed.

(** A processed file is skipped: the Vision service is not called and
    nothing is written. *)
Lemma main_step_processed index filename :
  is_Some (redis_docs_client index !! filename) →
  main_step word_tokenize vision index filename = index.
Proof.
  intros Hp. unfold main_step.
  by rewrite (proj2 (document_is_processed_Some _ _) Hp).
Qed.

(** An unprocessed file is handed to [get_text_from_file]. *)
Lemma main_step_unprocessed index filename :
  redis_docs_client index !! filename = None →
  main_step word_tokenize vision index filename =
  get_text_from_file word_tokenize vision index filename.
Proof.
  intros Hn. unfold main_step.
  by rewrite (proj2 (document_is_processed_None _ _) Hn).
Qed.

(** After a caught exception of the Vision call nothing is written. *)
Lemma get_text_from_file_failed index filename :
  detect_text vision filename = None →
  get_text_from_file word_tokenize vision index filename = index.
Proof. intros Hf. unfold get_text_from_file. by rewrite Hf. Qed.

(** Processing a file writes its own document entry and adds only its
    own name to postings. *)
Lemma get_text_from_file_other index input_filename filename :
  input_filename ≠ filename →
  redis_docs_client
    (get_text_from_file word_tokenize vision index input_filename)
    !! filename = redis_docs_client index !! filename ∧
  ∀ term,
    filename ∈ redis.smembers
      (redis_token_client
         (get_text_from_file word_tokenize vision index input_filename)) term ↔
    filename ∈ redis.smembers (redis_token_client index) term.
Proof.
  intros Hne. unfold get_text_from_file, extract_descriptions.
  destruct (detect_text vision input_filename) as [[|text texts]|].
  - simpl. unfold redis.set. by rewrite lookup_insert_ne.
  - rewrite docs_add, lookup_insert_ne by done. split; [done|].
    intros term. rewrite elem_of_smembers_add. naive_solver.
  - done.
Qed.

(** One iteration of the loop leaves alone every file that is processed
    already or whose Vision call fails. *)
Lemma main_step_frame index input_filename filename :
  is_Some (redis_docs_client index !! filename) ∨
    detect_text vision filename = None →
  redis_docs_client (main_step word_tokenize vision index input_filename)
    !! filename = redis_docs_client index !! filename ∧
  ∀ term,
    filename ∈ redis.smembers
      (redis_token_client
         (main_step word_tokenize vision index input_filename)) term ↔
    filename ∈ redis.smembers (redis_token_client index) term.
Proof.
  intros Hf.
  destruct (redis_docs_client index !! input_filename) as [text|] eqn:Hdoc.
  { rewrite main_step_processed by eauto. done. }
  rewrite main_step_unprocessed by done.
  destruct (decide (input_filename = filename)) as [->|Hne].
  - destruct Hf as [[text Hp]|Hfail]; [congruence|].
    by rewrite get_text_from_file_failed.
  - by apply get_text_from_file_other.
Qed.

End MainProperties.


(** ** The example states, evaluated *)

Example example_index_postings :
  redis_token_client example_index =
  {[ "cats" := {[ "img1.png" ]}; "dogs" := {[ "img1.png" ]};
     "play" := {[ "img1.png" ]} ]}.
Proof. by_evaluation. Qed.

Example example_index_lookup :
  lookup example_index ["cats"; "dogs"] =
  {[ ("img1.png", Some "Cats and Dogs play") ]}.
Proof. by_evaluation. Qed.

Example example_index_lookup_unknown :
  lookup example_index ["zzz_no_such_term"] = ∅.
Proof. by_evaluation. Qed.

Example example_main :
  let index :=
    main whitespace_tokenize example_vision example_index
         ["img1.png"; "b.png"; "c.png"; "d.png"] in
  redis_docs_client index =
    {[ "img1.png" := "Cats and Dogs play"; "c.png" := "Dogs run";
       "d.png" := "" ]} ∧
  redis_token_client index =
    {[ "cats" := {[ "img1.png" ]}; "dogs" := {[ "img1.png"; "c.png" ]};
       "play" := {[ "img1.png" ]}; "run" := {[ "c.png" ]} ]}.
Proof. split; by_evaluation. Qed.


(** ** The properties of the specification *)

(** *** Conjunction of two query words *)

(** C1. The specification asks that [lookup([a, b])] be the intersection of
    [lookup([a])] and [lookup([b])], and the empty set when [a] has no
    posting.  The docstring of [lookup] promises the intersection too, but
    the test [if conjunct] of the loop takes an empty intermediate result
    for the first iteration: in the scenario index, where [zebra] has no
    posting, the query [zebra dogs] returns the hits of [dogs]. *)
Theorem lookup_empty_first_word_leaks :
  lookup example_index ["zebra"] = ∅ ∧
  lookup example_index ["dogs"] =
    {[ ("img1.png", Some "Cats and Dogs play") ]} ∧
  lookup example_index ["zebra"; "dogs"] =
    {[ ("img1.png", Some "Cats and Dogs play") ]} ∧
  lookup example_index ["zebra"; "dogs"] ≠
    lookup example_index ["zebra"] ∩ lookup example_index ["dogs"].
Proof.
  assert (lookup example_index ["zebra"] = ∅) as Hz
    by by_evaluation.
  assert (lookup example_index ["dogs"] =
          {[ ("img1.png", Some "Cats and Dogs play") ]}) as Hd
    by by_evaluation.
  rewrite (lookup_two_leak _ _ _ Hz), Hz, Hd.
  split; [done|]. split; [done|]. split; [done|].
  rewrite intersection_empty_l_L. apply non_empty_singleton_L.
Qed.

(** *** The empty query *)

(** C9. [lookup] of no word at all returns the empty set, in every index
    state. *)
Theorem lookup_no_words (self : Index) : lookup self [] = ∅.
Proof. reflexivity. Qed.

(** *** Dangling postings *)

(** C4, as stated, fails: a file named by a posting and unknown to db 1 is
    returned by [lookup], paired with [None]. *)
Lemma lookup_dangling_returns_placeholder :
  "ghost.png" ∈ redis.smembers (redis_token_client dangling_index) "dog" ∧
  redis_docs_client dangling_index !! "ghost.png" = None ∧
  lookup dangling_index ["dog"] = {[ ("ghost.png", None) ]}.
Proof.
  split; [|split].
  - by_evaluation.
  - by_evaluation.
  - by_evaluation.
Qed.

(** C4, amended.  [lookup] has no consistency check and raises nothing:
    when the posting of the stem of a query word contains a file that has
    no entry in db 1, the result for that word contains the file paired
    with [None], the value of [GET] on an unset key. *)
Theorem lookup_dangling (self : Index) (word id : string) :
  id ∈ redis.smembers (redis_token_client self) (stem self (lower word)) →
  redis_docs_client self !! id = None →
  (id, None) ∈ lookup self [word].
Proof.
  intros Hin Hnone. rewrite lookup_one. apply elem_of_hits. by split.
Qed.

Lemma lookup_dangling_witness :
  "ghost.png" ∈ redis.smembers (redis_token_client dangling_index)
                  (stem dangling_index (lower "Dog")) ∧
  redis_docs_client dangling_index !! "ghost.png" = None ∧
  ("ghost.png", None) ∈ lookup dangling_index ["Dog"].
Proof.
  assert ("ghost.png" ∈ redis.smembers (redis_token_client dangling_index)
                          (stem dangling_index (lower "Dog"))) as Hin.
  { by_evaluation. }
  assert (redis_docs_client dangling_index !! "ghost.png" = None) as Hnone.
  { by_evaluation. }
  split; [exact Hin|]. split; [exact Hnone|].
  exact (lookup_dangling dangling_index "Dog" "ghost.png" Hin Hnone).
Defined.

(** *** [document_is_processed] *)

(** C7. [document_is_processed] returns true exactly when db 1 holds an
    entry for the file, the empty string that [set_contains_no_text]
    stores included, and false exactly when it holds none. *)
Theorem document_is_processed_spec (self : Index) (filename : string) :
  ((document_is_processed self filename).1 = true ↔
   is_Some (redis_docs_client self !! filename)) ∧
  ((document_is_processed self filename).1 = false ↔
   redis_docs_client self !! filename = None) ∧
  (document_is_processed (set_contains_no_text self filename) filename).1
    = true.
Proof.
  split; [apply document_is_processed_Some|].
  split; [apply document_is_processed_None|].
  apply document_is_processed_Some. simpl. unfold redis.set.
  rewrite lookup_insert_eq. by eauto.
Qed.

(** *** [add] on a file that is processed already *)

(** C2, as stated, fails: [add] on a processed file returns normally,
    replaces the stored text and extends the postings. *)
Lemma add_processed_overwrites :
  (document_is_processed example_index "img1.png").1 = true ∧
  redis_docs_client example_index !! "img1.png" =
    Some "Cats and Dogs play" ∧
  redis_docs_client
    (add whitespace_tokenize example_index "img1.png" "Birds sing")
    !! "img1.png" = Some "Birds sing" ∧
  ("img1.png" ∉ redis.smembers (redis_token_client example_index) "birds") ∧
  "img1.png" ∈ redis.smembers
    (redis_token_client
       (add whitespace_tokenize example_index "img1.png" "Birds sing"))
    "birds".
Proof. repeat (split; [by_evaluation|]). by_evaluation. Qed.

(** Two index objects with the same attributes are equal. *)
Lemma Index_eq (self self' : Index) :
  redis_token_client self = redis_token_client self' →
  redis_docs_client self = redis_docs_client self' →
  tokenizer self = tokenizer self' →
  stemmer self = stemmer self' →
  stopwords self = stopwords self' →
  self = self'.
Proof. destruct self, self'; simpl; congruence. Qed.

(** The configuration of the index is not touched by [add]. *)
Lemma normalize_add word_tokenize self filename document document' :
  normalize word_tokenize (add word_tokenize self filename document)
    document' = normalize word_tokenize self document'.
Proof. reflexivity. Qed.

(** C2, amended.  [add] has no already-processed check and raises
    nothing.  Repeating [add] with the same file and the same text
    leaves db 0 and db 1 as the first call left them, and the loop of
    [main] skips the file once it is processed, leaving the index
    unchanged. *)
Theorem add_again_same_text (word_tokenize : string → list string)
    (vision : string → execute_outcome) (self : Index)
    (filename document : string) :
  add word_tokenize (add word_tokenize self filename document)
      filename document = add word_tokenize self filename document ∧
  main_step word_tokenize vision
    (add word_tokenize self filename document) filename =
  add word_tokenize self filename document.
Proof.
  split.
  - apply Index_eq; try done.
    + rewrite add_tokens_normalize, normalize_add.
      apply sadd_all_member. intros term Hin.
      apply elem_of_smembers_add. by right.
    + rewrite !docs_add. apply insert_insert_eq.
  - apply main_step_processed. rewrite docs_add, lookup_insert_eq. by eauto.
Qed.

(** *** [set_contains_no_text] *)

(** C3, as stated, fails: [set_contains_no_text] on a processed file
    replaces its stored text by the empty string, and [add] after
    [set_contains_no_text] stores the text and writes the postings. *)
Lemma set_contains_no_text_no_guard :
  (document_is_processed example_index "img1.png").1 = true ∧
  redis_docs_client example_index !! "img1.png" =
    Some "Cats and Dogs play" ∧
  redis_docs_client (set_contains_no_text example_index "img1.png")
    !! "img1.png" = Some "" ∧
  (document_is_processed
     (set_contains_no_text (fresh_index None []) "img2.png") "img2.png").1
    = true ∧
  redis_docs_client
    (add whitespace_tokenize
       (set_contains_no_text (fresh_index None []) "img2.png")
       "img2.png" "anything") !! "img2.png" = Some "anything" ∧
  "img2.png" ∈ redis.smembers
    (redis_token_client
       (add whitespace_tokenize
          (set_contains_no_text (fresh_index None []) "img2.png")
          "img2.png" "anything")) "anything".
Proof. repeat (split; [by_evaluation|]). by_evaluation. Qed.

(** C3, amended.  [set_contains_no_text] has no already-processed check
    and raises nothing: whether or not the file was processed, it stores
    the empty string for it and leaves db 0 alone.  Afterwards
    [document_is_processed] is true for the file and the loop of [main]
    skips it; [add] itself would not reject it. *)
Theorem set_contains_no_text_spec (word_tokenize : string → list string)
    (vision : string → execute_outcome) (self : Index) (filename : string) :
  redis_token_client (set_contains_no_text self filename) =
    redis_token_client self ∧
  redis_docs_client (set_contains_no_text self filename) =
    <[filename := ""]> (redis_docs_client self) ∧
  (document_is_processed (set_contains_no_text self filename) filename).1
    = true ∧
  main_step word_tokenize vision (set_contains_no_text self filename)
    filename = set_contains_no_text self filename.
Proof.
  assert (is_Some (redis_docs_client (set_contains_no_text self filename)
                     !! filename)) as Hp.
  { simpl. unfold redis.set. rewrite lookup_insert_eq. by eauto. }
  split; [done|]. split; [done|]. split.
  - by apply document_is_processed_Some.
  - by apply main_step_processed.
Qed.

(** *** [lookup] after [add] *)

(** The core of lookup correctness: a query word whose stem is a term of
    the document finds the document, with its text. *)
Lemma lookup_add_stem word_tokenize self filename document word :
  stem self (lower word) ∈ normalize word_tokenize self document →
  (filename, Some document) ∈
    lookup (add word_tokenize self filename document) [word].
Proof.
  intros Hin. rewrite lookup_one. apply elem_of_hits. split.
  - apply elem_of_smembers_add. right. by split.
  - by rewrite docs_add, lookup_insert_eq.
Qed.

(** Every token of the document that passes the filters finds the
    document. *)
Lemma lookup_add_token word_tokenize self filename document token :
  token ∈ word_tokenize document →
  lower token ∉ stopwords self →
  lower token ∉ ["."; ","; ":"; ""] →
  (filename, Some document) ∈
    lookup (add word_tokenize self filename document) [token].
Proof.
  intros Hin Hs Hp. apply lookup_add_stem.
  apply elem_of_normalize. by exists token.
Qed.

(** Without a stemmer every term of the document finds the document. *)
Lemma lookup_add_term_no_stemmer word_tokenize self filename document term :
  stemmer self = None →
  term ∈ normalize word_tokenize self document →
  (filename, Some document) ∈
    lookup (add word_tokenize self filename document) [term].
Proof.
  intros Hnone Hin. apply lookup_add_stem.
  assert (stem self (lower term) = term) as ->; [|done].
  apply elem_of_normalize in Hin as (token & _ & _ & _ & ->).
  unfold stem. rewrite Hnone. apply lower_idemp.
Qed.

(** C5, as stated, fails: [lookup] stems its argument again, so a term
    that the stemmer does not leave fixed misses the document.  With the
    stemmer [strip_s] the text [glass] is indexed under [glas], and the
    query [glas] looks under [gla]. *)
Lemma lookup_term_restemmed :
  redis_docs_client (fresh_index (Some strip_s) []) !! "img1.png" = None ∧
  normalize whitespace_tokenize (fresh_index (Some strip_s) []) "glass" =
    ["glas"] ∧
  lookup (add whitespace_tokenize (fresh_index (Some strip_s) [])
              "img1.png" "glass") ["glas"] = ∅ ∧
  ("img1.png", Some "glass") ∉
    lookup (add whitespace_tokenize (fresh_index (Some strip_s) [])
                "img1.png" "glass") ["glas"].
Proof. repeat (split; [by_evaluation|]). by_evaluation. Qed.

(** C5, amended.  After [add(D, T)], every query word whose normal form
    [stem(lower(word))] is a term written for [T] finds [D] paired with
    [T]: so does every token of [T] that passes the filters, and every
    term of [T] that lowercasing and the stemmer leave fixed. *)
Theorem lookup_after_add (word_tokenize : string → list string)
    (self : Index) (filename document word : string) :
  stem self (lower word) ∈ normalize word_tokenize self document →
  (filename, Some document) ∈
    lookup (add word_tokenize self filename document) [word].
Proof. apply lookup_add_stem. Qed.

Lemma lookup_after_add_witness :
  stem (fresh_index (Some strip_s) ["and"]) (lower "Dogs") ∈
    normalize whitespace_tokenize (fresh_index (Some strip_s) ["and"])
      "Cats and Dogs play" ∧
  ("img1.png", Some "Cats and Dogs play") ∈
    lookup (add whitespace_tokenize (fresh_index (Some strip_s) ["and"])
                "img1.png" "Cats and Dogs play") ["Dogs"].
Proof.
  assert (stem (fresh_index (Some strip_s) ["and"]) (lower "Dogs") ∈
            normalize whitespace_tokenize (fresh_index (Some strip_s) ["and"])
              "Cats and Dogs play") as Hin.
  { by_evaluation. }
  split; [exact Hin|].
  exact (lookup_after_add whitespace_tokenize
           (fresh_index (Some strip_s) ["and"])
           "img1.png" "Cats and Dogs play" "Dogs" Hin).
Defined.

(** *** The terms written by [add] *)

(** C6, as stated, fails: only the tokens [.], [,], [:] and the empty
    token are dropped as punctuation; [;] and [!] are written as terms. *)
Lemma add_indexes_punctuation :
  pure_punctuation "!" = true ∧ pure_punctuation ";" = true ∧
  normalize_spec whitespace_tokenize (fresh_index None ["and"])
    "stop ; go !" = ["stop"; "go"] ∧
  normalize whitespace_tokenize (fresh_index None ["and"])
    "stop ; go !" = ["stop"; ";"; "go"; "!"] ∧
  "img3.png" ∈ redis.smembers
    (redis_token_client
       (add whitespace_tokenize (fresh_index None ["and"])
            "img3.png" "stop ; go !")) "!" ∧
  "img3.png" ∈ redis.smembers
    (redis_token_client
       (add whitespace_tokenize (fresh_index None ["and"])
            "img3.png" "stop ; go !")) ";".
Proof. repeat (split; [by_evaluation|]). by_evaluation. Qed.

(** The stopword test precedes the stemmer: a token that is no stopword
    may be written under a stem that is one. *)
Example add_indexes_stem_in_stopwords :
  "and" ∈ stopwords (fresh_index (Some strip_s) ["and"]) ∧
  "img3.png" ∈ redis.smembers
    (redis_token_client
       (add whitespace_tokenize (fresh_index (Some strip_s) ["and"])
            "img3.png" "ands")) "and".
Proof. split; by_evaluation. Qed.

(** C6, amended.  [add] tokenizes, lowercases, drops the tokens in the
    stopword set, drops the tokens [.], [,], [:] and the empty token, and
    stems what is left: the postings after [add] are the postings before,
    plus the file under exactly the stems of the lowercased tokens that are
    neither stopwords nor one of those four tokens.  Other punctuation
    tokens are written like words. *)
Theorem add_writes_exactly (word_tokenize : string → list string)
    (self : Index) (filename document term x : string) :
  x ∈ redis.smembers
        (redis_token_client (add word_tokenize self filename document)) term ↔
  x ∈ redis.smembers (redis_token_client self) term ∨
  (x = filename ∧
   ∃ token, token ∈ word_tokenize document ∧
            (lower token ∉ stopwords self) ∧
            (lower token ∉ ["."; ","; ":"; ""]) ∧
            term = stem self (lower token)).
Proof. by rewrite elem_of_smembers_add, elem_of_normalize. Qed.

(** *** [add] of a text without terms *)

(** C10, as stated, fails: a text that yields no term need not be empty.
    [add] stores the text [.] as it is, and [document_is_processed] then
    reports the file as added to the index, not as a file without text. *)
Lemma add_no_terms_keeps_text :
  redis_docs_client (fresh_index None []) !! "img4.png" = None ∧
  normalize whitespace_tokenize (fresh_index None []) "." = [] ∧
  redis_token_client
    (add whitespace_tokenize (fresh_index None []) "img4.png" ".") = ∅ ∧
  redis_docs_client
    (add whitespace_tokenize (fresh_index None []) "img4.png" ".")
    !! "img4.png" = Some "." ∧
  redis_docs_client (set_contains_no_text (fresh_index None []) "img4.png")
    !! "img4.png" = Some "" ∧
  document_is_processed
    (add whitespace_tokenize (fresh_index None []) "img4.png" ".")
    "img4.png" = (true, ["img4.png already added to index."]) ∧
  document_is_processed
    (set_contains_no_text (fresh_index None []) "img4.png") "img4.png" =
  (true, ["File img4.png was already checked, and contains no text."]).
Proof. repeat (split; [by_evaluation|]). by_evaluation. Qed.

(** C10, amended.  [add] with a text that yields no term writes no
    posting and stores the text as it is.  The resulting index is the one
    [set_contains_no_text] produces exactly when the text is the empty
    string, and only then is the file reported as checked without text;
    any other such text is reported as added to the index. *)
Theorem add_no_terms_spec (word_tokenize : string → list string)
    (self : Index) (filename document : string) :
  normalize word_tokenize self document = [] →
  redis_token_client (add word_tokenize self filename document) =
    redis_token_client self ∧
  redis_docs_client (add word_tokenize self filename document) =
    <[filename := document]> (redis_docs_client self) ∧
  (add word_tokenize self filename document =
     set_contains_no_text self filename ↔ document = "") ∧
  document_is_processed (add word_tokenize self filename document) filename =
    if truthy (Some document) then
      (true, [filename +:+ " already added to index."])
    else
      (true, ["File " +:+ filename +:+
              " was already checked, and contains no text."]).
Proof.
  intros Hn.
  pose proof (add_no_terms word_tokenize self filename document Hn) as Htok.
  split; [done|]. split; [done|]. split.
  - split.
    + intros Heq. apply (f_equal (λ s, redis_docs_client s !! filename)) in Heq.
      rewrite docs_add in Heq. simpl in Heq. unfold redis.set in Heq.
      rewrite !lookup_insert_eq in Heq. congruence.
    + intros ->. by apply Index_eq.
  - unfold document_is_processed, redis.get.
    rewrite docs_add, lookup_insert_eq.
    by destruct document.
Qed.

Lemma add_no_terms_spec_witness :
  normalize whitespace_tokenize (fresh_index None ["and"]) "" = [] ∧
  add whitespace_tokenize (fresh_index None ["and"]) "img5.png" "" =
    set_contains_no_text (fresh_index None ["and"]) "img5.png".
Proof.
  assert (normalize whitespace_tokenize (fresh_index None ["and"]) "" = [])
    as Hn.
  { by_evaluation. }
  split; [exact Hn|].
  destruct (add_no_terms_spec whitespace_tokenize (fresh_index None ["and"])
              "img5.png" "" Hn) as (_ & _ & Hiff & _).
  apply Hiff. reflexivity.
Defined.

(** *** The ingestion run *)

(** C8.  A run of the loop of [main] leaves alone every file that is
    processed already and every file whose Vision call fails with an
    exception that [detect_text] catches: the entry of such a file in db 1
    is after the run what it was before (none, for an unprocessed file
    that failed, which a later run therefore does not skip), and the file
    is in the same postings as before. *)
Theorem main_leaves_processed_and_failed
    (word_tokenize : string → list string)
    (vision : string → execute_outcome) (fileslist : list string)
    (index : Index) (filename : string) :
  is_Some (redis_docs_client index !! filename) ∨
    detect_text vision filename = None →
  redis_docs_client (main word_tokenize vision index fileslist) !! filename =
    redis_docs_client index !! filename ∧
  (document_is_processed (main word_tokenize vision index fileslist)
     filename).1 = (document_is_processed index filename).1 ∧
  ∀ term,
    filename ∈ redis.smembers
      (redis_token_client (main word_tokenize vision index fileslist)) term ↔
    filename ∈ redis.smembers (redis_token_client index) term.
Proof.
  intros Hf.
  assert (redis_docs_client (main word_tokenize vision index fileslist)
            !! filename = redis_docs_client index !! filename ∧
          ∀ term,
            filename ∈ redis.smembers
              (redis_token_client (main word_tokenize vision index fileslist))
              term ↔
            filename ∈ redis.smembers (redis_token_client index) term)
    as [Hdoc Htok].
  { revert index Hf. unfold main.
    induction fileslist as [|input_filename fileslist IH]; intros index Hf.
    { done. }
    simpl.
    destruct (main_step_frame word_tokenize vision index input_filename
                filename Hf) as [Hdoc Htok].
    destruct (IH (main_step word_tokenize vision index input_filename))
      as [Hdoc' Htok'].
    { rewrite Hdoc. done. }
    split; [by rewrite Hdoc'|].
    intros term. by rewrite Htok'. }
  split; [done|]. split; [|done].
  unfold document_is_processed, redis.get. by rewrite Hdoc.
Qed.

Lemma main_leaves_processed_and_failed_witness :
  (is_Some (redis_docs_client example_index !! "b.png") ∨
     detect_text example_vision "b.png" = None) ∧
  redis_docs_client
    (main whitespace_tokenize example_vision example_index
          ["img1.png"; "b.png"; "c.png"; "d.png"]) !! "b.png" =
  redis_docs_client example_index !! "b.png".
Proof.
  assert (is_Some (redis_docs_client example_index !! "b.png") ∨
            detect_text example_vision "b.png" = None) as Hf.
  { right. reflexivity. }
  split; [exact Hf|].
  exact (proj1 (main_leaves_processed_and_failed whitespace_tokenize
                  example_vision ["img1.png"; "b.png"; "c.png"; "d.png"]
                  example_index "b.png" Hf)).
Defined.

(** In the example run the failed file [b.png] stays unprocessed and the
    processed file [img1.png] keeps its text. *)
Example example_main_failed_and_processed :
  redis_docs_client
    (main whitespace_tokenize example_vision example_index
          ["img1.png"; "b.png"; "c.png"; "d.png"]) !! "b.png" = None ∧
  redis_docs_client
    (main whitespace_tokenize example_vision example_index
          ["img1.png"; "b.png"; "c.png"; "d.png"]) !! "img1.png" =
    Some "Cats and Dogs play".
Proof. split; by_evaluation. Qed.


(** ** Further properties of [lookup] *)

(** One more query word: the body of the loop, on the result so far. *)
Lemma lookup_snoc self (words : list string) word :
  lookup self (words ++ [word]) =
  if set_truthy (lookup self words)
  then lookup self words ∩ lookup self [word]
  else lookup self [word].
Proof.
  rewrite lookup_one. unfold lookup. by rewrite foldl_app.
Qed.

Lemma set_truthy_true `{Countable A} (X : gset A) :
  set_truthy X = true ↔ X ≠ ∅.
Proof. unfold set_truthy. by rewrite bool_decide_eq_true. Qed.

Lemma lookup_step_lower self conjunct word :
  lookup_step self conjunct (lower word) = lookup_step self conjunct word.
Proof. unfold lookup_step. by rewrite lower_idemp. Qed.

(** X1.  Whatever the query, the result is among the hits of its last word. *)
Theorem lookup_subset_last_word (self : Index) (words : list string)
    (word : string) :
  lookup self (words ++ [word]) ⊆ lookup self [word].
Proof.
  rewrite lookup_snoc. destruct (set_truthy (lookup self words)).
  - apply intersection_subseteq_r.
  - done.
Qed.

(** X2.  A file is always returned with the value that db 1 holds for it. *)
Theorem lookup_text_is_stored (self : Index) (words : list string)
    (id : string) (text : option string) :
  (id, text) ∈ lookup self words →
  text = redis_docs_client self !! id.
Proof.
  induction words as [|word words _] using rev_ind.
  - unfold lookup; simpl. by intros ?%not_elem_of_empty.
  - rewrite lookup_snoc. intros Hin.
    assert ((id, text) ∈ lookup self [word]) as Hw.
    { destruct (set_truthy (lookup self words)); [|done].
      by apply elem_of_intersection in Hin as [_ ?]. }
    rewrite lookup_one in Hw. by apply elem_of_hits in Hw as [_ ?].
Qed.

Lemma lookup_text_is_stored_witness :
  ("img1.png", Some "Cats and Dogs play") ∈
    lookup example_index ["Cats"; "PLAY"] ∧
  Some "Cats and Dogs play" = redis_docs_client example_index !! "img1.png".
Proof.
  assert (("img1.png", Some "Cats and Dogs play") ∈
            lookup example_index ["Cats"; "PLAY"]) as Hin.
  { by_evaluation. }
  split; [exact Hin|].
  exact (lookup_text_is_stored example_index ["Cats"; "PLAY"] "img1.png"
           (Some "Cats and Dogs play") Hin).
Defined.

(** X3.  A hit of every word of a query is in the result of the query: the
    test on the accumulator can let hits through, it cannot lose a file
    that has all the words. *)
Theorem lookup_complete (self : Index) (words : list string)
    (x : string * option string) :
  words ≠ [] →
  (∀ word, word ∈ words → x ∈ lookup self [word]) →
  x ∈ lookup self words.
Proof.
  induction words as [|word words IH] using rev_ind; [done|].
  intros _ Hall. rewrite lookup_snoc.
  assert (x ∈ lookup self [word]) as Hw.
  { apply Hall. apply elem_of_app. right. by apply list_elem_of_singleton. }
  destruct (set_truthy (lookup self words)) eqn:Ht; [|done].
  apply elem_of_intersection. split; [|done].
  apply IH.
  - intros ->. apply set_truthy_true in Ht. by apply Ht.
  - intros w Hin. apply Hall. apply elem_of_app. by left.
Qed.

Lemma lookup_complete_witness :
  ["cats"; "dogs"; "play"] ≠ [] ∧
  (∀ word, word ∈ ["cats"; "dogs"; "play"] →
     ("img1.png", Some "Cats and Dogs play") ∈ lookup example_index [word]) ∧
  ("img1.png", Some "Cats and Dogs play") ∈
    lookup example_index ["cats"; "dogs"; "play"].
Proof.
  assert (["cats"; "dogs"; "play"] ≠ []) as Hne by done.
  assert (∀ word, word ∈ ["cats"; "dogs"; "play"] →
            ("img1.png", Some "Cats and Dogs play") ∈
              lookup example_index [word]) as Hall.
  { intros word Hin.
    repeat (apply elem_of_cons in Hin as [->|Hin]; [by_evaluation|]).
    by apply elem_of_nil in Hin. }
  split; [exact Hne|]. split; [exact Hall|].
  exact (lookup_complete example_index ["cats"; "dogs"; "play"]
           ("img1.png", Some "Cats and Dogs play") Hne Hall).
Defined.

(** X4.  When no proper prefix of the query has an empty result, the result is
    the intersection of the results of the words. *)
Theorem lookup_intersection (self : Index) (words : list string)
    (x : string * option string) :
  (∀ n, 0 < n < List.length words → lookup self (take n words) ≠ ∅) →
  x ∈ lookup self words ↔
  words ≠ [] ∧ ∀ word, word ∈ words → x ∈ lookup self [word].
Proof.
  induction words as [|word words IH] using rev_ind.
  { intros _. unfold lookup; simpl. split.
    - by intros ?%not_elem_of_empty.
    - by intros [? _]. }
  intros Hpre. rewrite lookup_snoc.
  destruct (decide (words = [])) as [->|Hne].
  { unfold lookup at 1; simpl. rewrite set_truthy_empty. split.
    - intros Hin. split; [done|].
      intros w ->%list_elem_of_singleton. done.
    - intros [_ Hall]. apply Hall. by apply list_elem_of_singleton. }
  assert (lookup self words ≠ ∅) as Hws.
  { specialize (Hpre (List.length words)).
    rewrite take_app_length in Hpre. apply Hpre.
    rewrite length_app; simpl.
    destruct words; [done|]. simpl. lia. }
  rewrite (proj2 (set_truthy_true _) Hws).
  rewrite elem_of_intersection, IH.
  - split.
    + intros [[_ Hall] Hw]. split; [by destruct words|].
      intros w [Hin| ->%list_elem_of_singleton]%elem_of_app; auto.
    + intros [_ Hall]. split; [split; [done|]|].
      * intros w Hin. apply Hall. apply elem_of_app. by left.
      * apply Hall. apply elem_of_app. right. by apply list_elem_of_singleton.
  - intros n Hn. specialize (Hpre n).
    rewrite take_app_le in Hpre by lia. apply Hpre.
    rewrite length_app; simpl. lia.
Qed.

Lemma lookup_intersection_witness :
  (∀ n, 0 < n < List.length ["cats"; "dogs"; "play"] →
     lookup example_index (take n ["cats"; "dogs"; "play"]) ≠ ∅) ∧
  (("img1.png", Some "Cats and Dogs play") ∈
     lookup example_index ["cats"; "dogs"; "play"] ↔
   ["cats"; "dogs"; "play"] ≠ [] ∧
   ∀ word, word ∈ ["cats"; "dogs"; "play"] →
     ("img1.png", Some "Cats and Dogs play") ∈ lookup example_index [word]).
Proof.
  assert (∀ n, 0 < n < List.length ["cats"; "dogs"; "play"] →
            lookup example_index (take n ["cats"; "dogs"; "play"]) ≠ ∅)
    as Hpre.
  { intros n Hn. simpl in Hn.
    destruct n as [|[|[|n]]]; [lia| | |lia]; by_evaluation. }
  split; [exact Hpre|].
  exact (lookup_intersection example_index ["cats"; "dogs"; "play"]
           ("img1.png", Some "Cats and Dogs play") Hpre).
Defined.

(** X5.  The query is case-insensitive. *)
Theorem lookup_lower (self : Index) (words : list string) :
  lookup self (lower <$> words) = lookup self words.
Proof.
  unfold lookup. generalize (∅ : gset (string * option string)).
  induction words as [|word words IH]; intros conjunct; simpl; [done|].
  by rewrite lookup_step_lower, IH.
Qed.


(** ** Further properties of [add] *)

(** The contents of db 0 after a sequence of [SADD]s of one member. *)
Lemma smembers_sadd_all (terms : list string) filename db term :
  redis.smembers
    (foldl (λ db term, redis.sadd db term filename) db terms) term =
  if decide (term ∈ terms) then redis.smembers db term ∪ {[filename]}
  else redis.smembers db term.
Proof.
  revert db. induction terms as [|t terms IH]; intros db; cbn [foldl].
  { by rewrite decide_False by apply not_elem_of_nil. }
  rewrite IH, !smembers_sadd.
  repeat case_decide; subst; try done; set_solver.
Qed.

Lemma lookup_sadd_all (terms : list string) filename db term :
  foldl (λ db term, redis.sadd db term filename) db terms !! term =
  if decide (term ∈ terms) then Some (redis.smembers db term ∪ {[filename]})
  else db !! term.
Proof.
  revert db. induction terms as [|t terms IH]; intros db; cbn [foldl].
  { by rewrite decide_False by apply not_elem_of_nil. }
  rewrite IH, smembers_sadd. unfold redis.sadd. rewrite lookup_insert.
  repeat case_decide; subst; try done; try (f_equal; set_solver);
    exfalso; set_solver.
Qed.

(** The sequences of [SADD]s of two calls of [add] commute. *)
Lemma sadd_all_comm (terms1 terms2 : list string) filename1 filename2 db :
  foldl (λ db term, redis.sadd db term filename2)
    (foldl (λ db term, redis.sadd db term filename1) db terms1) terms2 =
  foldl (λ db term, redis.sadd db term filename1)
    (foldl (λ db term, redis.sadd db term filename2) db terms2) terms1.
Proof.
  apply map_eq. intros term.
  rewrite !lookup_sadd_all, !smembers_sadd_all.
  repeat case_decide; try done; f_equal; set_solver.
Qed.

(** X6.  Adding two different files in either order gives the same index. *)
Theorem add_comm (word_tokenize : string → list string) (self : Index)
    (filename1 document1 filename2 document2 : string) :
  filename1 ≠ filename2 →
  add word_tokenize (add word_tokenize self filename1 document1)
      filename2 document2 =
  add word_tokenize (add word_tokenize self filename2 document2)
      filename1 document1.
Proof.
  intros Hne. apply Index_eq; try done.
  - rewrite !add_tokens_normalize, !normalize_add. apply sadd_all_comm.
  - rewrite !docs_add. by apply insert_insert_ne.
Qed.

Lemma add_comm_witness :
  "a.png" ≠ "b.png" ∧
  add whitespace_tokenize
    (add whitespace_tokenize (fresh_index None ["and"]) "a.png" "Cats and Dogs")
    "b.png" "dogs play" =
  add whitespace_tokenize
    (add whitespace_tokenize (fresh_index None ["and"]) "b.png" "dogs play")
    "a.png" "Cats and Dogs".
Proof.
  assert ("a.png" ≠ "b.png") as Hne by done.
  split; [exact Hne|].
  exact (add_comm whitespace_tokenize (fresh_index None ["and"])
           "a.png" "Cats and Dogs" "b.png" "dogs play" Hne).
Defined.

(** X7.  [add] only adds: every posting keeps its members, and every other file
    keeps its entry in db 1 and is in the same postings as before. *)
Theorem add_frame (word_tokenize : string → list string) (self : Index)
    (filename document : string) :
  (∀ term,
     redis.smembers (redis_token_client self) term ⊆
     redis.smembers
       (redis_token_client (add word_tokenize self filename document)) term) ∧
  (∀ id term,
     id ≠ filename →
     (id ∈ redis.smembers
        (redis_token_client (add word_tokenize self filename document)) term ↔
      id ∈ redis.smembers (redis_token_client self) term)) ∧
  (∀ id,
     id ≠ filename →
     redis_docs_client (add word_tokenize self filename document) !! id =
     redis_docs_client self !! id).
Proof.
  split; [|split].
  - intros term x Hin. apply elem_of_smembers_add. by left.
  - intros id term Hne. rewrite elem_of_smembers_add. naive_solver.
  - intros id Hne. rewrite docs_add. by apply lookup_insert_ne.
Qed.

(** X8.  [add] of a file does not change which other files a one-word query
    returns, nor their texts. *)
Theorem lookup_add_other (word_tokenize : string → list string)
    (self : Index) (filename document word id : string)
    (text : option string) :
  id ≠ filename →
  (id, text) ∈ lookup (add word_tokenize self filename document) [word] ↔
  (id, text) ∈ lookup self [word].
Proof.
  intros Hne. rewrite !lookup_one, !elem_of_hits.
  assert (stem (add word_tokenize self filename document) (lower word) =
          stem self (lower word)) as -> by done.
  rewrite elem_of_smembers_add, docs_add, lookup_insert_ne by done.
  naive_solver.
Qed.

Lemma lookup_add_other_witness :
  "img1.png" ≠ "img2.png" ∧
  (("img1.png", Some "Cats and Dogs play") ∈
     lookup (add whitespace_tokenize example_index "img2.png" "dogs bark")
       ["dogs"] ↔
   ("img1.png", Some "Cats and Dogs play") ∈ lookup example_index ["dogs"]).
Proof.
  assert ("img1.png" ≠ "img2.png") as Hne by done.
  split; [exact Hne|].
  exact (lookup_add_other whitespace_tokenize example_index "img2.png"
           "dogs bark" "dogs" "img1.png" (Some "Cats and Dogs play") Hne).
Defined.

(** X9.  A file that was in no posting of a term is found under a word with
    that stem after [add] only if the term is a term of its text. *)
Theorem lookup_add_only_terms (word_tokenize : string → list string)
    (self : Index) (filename document word : string) (text : option string) :
  filename ∉ redis.smembers (redis_token_client self)
               (stem self (lower word)) →
  (filename, text) ∈
    lookup (add word_tokenize self filename document) [word] →
  text = Some document ∧
  stem self (lower word) ∈ normalize word_tokenize self document.
Proof.
  intros Hnot. rewrite lookup_one, elem_of_hits.
  assert (stem (add word_tokenize self filename document) (lower word) =
          stem self (lower word)) as -> by done.
  rewrite elem_of_smembers_add, docs_add, lookup_insert_eq.
  naive_solver.
Qed.

Lemma lookup_add_only_terms_witness :
  ("img1.png" ∉
     redis.smembers (redis_token_client (fresh_index None ["and"]))
       (stem (fresh_index None ["and"]) (lower "Dogs"))) ∧
  ("img1.png", Some "Cats and Dogs play") ∈
    lookup (add whitespace_tokenize (fresh_index None ["and"])
              "img1.png" "Cats and Dogs play") ["Dogs"] ∧
  stem (fresh_index None ["and"]) (lower "Dogs") ∈
    normalize whitespace_tokenize (fresh_index None ["and"])
      "Cats and Dogs play".
Proof.
  assert ("img1.png" ∉
            redis.smembers (redis_token_client (fresh_index None ["and"]))
              (stem (fresh_index None ["and"]) (lower "Dogs"))) as Hnot.
  { by_evaluation. }
  assert (("img1.png", Some "Cats and Dogs play") ∈
            lookup (add whitespace_tokenize (fresh_index None ["and"])
                      "img1.png" "Cats and Dogs play") ["Dogs"]) as Hin.
  { by_evaluation. }
  split; [exact Hnot|]. split; [exact Hin|].
  exact (proj2 (lookup_add_only_terms whitespace_tokenize
                  (fresh_index None ["and"]) "img1.png" "Cats and Dogs play"
                  "Dogs" (Some "Cats and Dogs play") Hnot Hin)).
Defined.


(** ** Further properties of the ingestion loop *)

Lemma string_app_nil_r (s : string) : s +:+ "" = s.
Proof.
  induction s as [|c s IH]; [done|].
  change (String c s +:+ "") with (String c (s +:+ "")). by rewrite IH.
Qed.

Lemma string_app_assoc (s1 s2 s3 : string) :
  s1 +:+ (s2 +:+ s3) = (s1 +:+ s2) +:+ s3.
Proof.
  induction s1 as [|c s1 IH]; [done|].
  change (String c s1 +:+ (s2 +:+ s3)) with (String c (s1 +:+ (s2 +:+ s3))).
  by rewrite IH.
Qed.

(** The document built by [extract_descriptions], from a start value. *)
Lemma concat_descriptions_from (texts : list annotation) (document : string) :
  foldl (λ document text,
           match description text with
           | Some d => document +:+ d
           | None => document
           end) document texts =
  document +:+ concat_descriptions texts.
Proof.
  unfold concat_descriptions. revert document.
  induction texts as [|text texts IH]; intros document; cbn [foldl].
  { by rewrite string_app_nil_r. }
  rewrite IH, (IH (match description text with
                    | Some d => "" +:+ d | None => "" end)).
  destruct (description text) as [d|]; simpl.
  - by rewrite string_app_assoc.
  - done.
Qed.

Lemma concat_empty_separator (d : string) (l : list string) :
  String.concat "" (d :: l) = d +:+ String.concat "" l.
Proof. destruct l; simpl; [by rewrite string_app_nil_r|done]. Qed.

(** X10.  The document that [extract_descriptions] indexes is the concatenation
    of the descriptions present, in the order of the response; the entries
    without description are left out. *)
Theorem concat_descriptions_omap (texts : list annotation) :
  concat_descriptions texts = String.concat "" (omap description texts).
Proof.
  induction texts as [|text texts IH]; [done|].
  unfold concat_descriptions. cbn [foldl]. rewrite concat_descriptions_from.
  rewrite IH. cbn [omap list_omap].
  destruct (description text) as [d|].
  - rewrite concat_empty_separator. reflexivity.
  - reflexivity.
Qed.

Section MainFurther.

Variable word_tokenize : string → list string.
Variable vision : string → execute_outcome.

(** A whole run leaves alone every file that is processed already or
    whose Vision call fails. *)
Lemma main_frame (fileslist : list string) index filename :
  is_Some (redis_docs_client index !! filename) ∨
    detect_text vision filename = None →
  redis_docs_client (main word_tokenize vision index fileslist) !! filename =
    redis_docs_client index !! filename ∧
  ∀ term,
    filename ∈ redis.smembers
      (redis_token_client (main word_tokenize vision index fileslist)) term ↔
    filename ∈ redis.smembers (redis_token_client index) term.
Proof.
  revert index. unfold main.
  induction fileslist as [|input_filename fileslist IH]; intros index Hf.
  { done. }
  cbn [foldl].
  destruct (main_step_frame word_tokenize vision index input_filename
              filename Hf) as [Hdoc Htok].
  destruct (IH (main_step word_tokenize vision index input_filename))
    as [Hdoc' Htok'].
  { by rewrite Hdoc. }
  split; [by rewrite Hdoc'|].
  intros term. by rewrite Htok'.
Qed.

(** What [get_text_from_file] stores for a file whose Vision call
    returns: the concatenated descriptions, which is the empty string
    for an empty list of annotations. *)
Lemma get_text_from_file_stores index filename texts :
  detect_text vision filename = Some texts →
  redis_docs_client (get_text_from_file word_tokenize vision index filename)
    !! filename = Some (concat_descriptions texts).
Proof.
  intros Hd. unfold get_text_from_file, extract_descriptions. rewrite Hd.
  destruct texts as [|text texts].
  - simpl. unfold redis.set. by rewrite lookup_insert_eq.
  - by rewrite docs_add, lookup_insert_eq.
Qed.

(** One iteration on a file that is not the one looked at leaves the
    entry and the postings of the latter alone. *)
Lemma main_step_other index input_filename filename :
  input_filename ≠ filename →
  redis_docs_client (main_step word_tokenize vision index input_filename)
    !! filename = redis_docs_client index !! filename ∧
  ∀ term,
    filename ∈ redis.smembers
      (redis_token_client
         (main_step word_tokenize vision index input_filename)) term ↔
    filename ∈ redis.smembers (redis_token_client index) term.
Proof.
  intros Hne.
  destruct (redis_docs_client index !! input_filename) as [text|] eqn:Hdoc.
  { rewrite main_step_processed by eauto. done. }
  rewrite main_step_unprocessed by done.
  by apply get_text_from_file_other.
Qed.

(** After a run, every file of the list whose Vision call returns is
    processed. *)
Lemma main_processed_elem (fileslist : list string) index filename :
  filename ∈ fileslist →
  detect_text vision filename ≠ None →
  is_Some (redis_docs_client (main word_tokenize vision index fileslist)
             !! filename).
Proof.
  revert index. unfold main.
  induction fileslist as [|input_filename fileslist IH]; intros index Hin Hd.
  { by apply elem_of_nil in Hin. }
  cbn [foldl].
  destruct (decide (input_filename = filename)) as [->|Hne].
  - assert (is_Some (redis_docs_client
                       (main_step word_tokenize vision index filename)
                       !! filename)) as Hp.
    { destruct (redis_docs_client index !! filename) as [text|] eqn:Hdoc.
      - rewrite main_step_processed by eauto. by rewrite Hdoc.
      - rewrite main_step_unprocessed by done.
        destruct (detect_text vision filename) as [texts|] eqn:Ht; [|done].
        erewrite get_text_from_file_stores by done. by eauto. }
    destruct (main_frame fileslist
                (main_step word_tokenize vision index filename) filename)
      as [Hdoc _]; [by left|].
    unfold main in Hdoc. by rewrite Hdoc.
  - apply IH; [|done].
    apply elem_of_cons in Hin as [?|?]; [by subst|done].
Qed.

(** A run over files that are all processed or failing changes nothing. *)
Lemma main_nothing_to_do (fileslist : list string) index :
  (∀ filename, filename ∈ fileslist →
     is_Some (redis_docs_client index !! filename) ∨
       detect_text vision filename = None) →
  main word_tokenize vision index fileslist = index.
Proof.
  unfold main.
  induction fileslist as [|input_filename fileslist IH]; intros Hall.
  { done. }
  cbn [foldl].
  assert (main_step word_tokenize vision index input_filename = index) as ->.
  { destruct (Hall input_filename) as [Hp|Hfail]; [by left| |].
    - by apply main_step_processed.
    - destruct (redis_docs_client index !! input_filename) eqn:Hdoc.
      + apply main_step_processed. by eauto.
      + rewrite main_step_unprocessed by done.
        by apply get_text_from_file_failed. }
  apply IH. intros filename Hin. apply Hall. by right.
Qed.

End MainFurther.

(** X11.  A second run over the same files, with the Vision service answering
    as in the first, changes nothing. *)
Theorem main_idempotent (word_tokenize : string → list string)
    (vision : string → execute_outcome) (index : Index)
    (fileslist : list string) :
  main word_tokenize vision
    (main word_tokenize vision index fileslist) fileslist =
  main word_tokenize vision index fileslist.
Proof.
  apply main_nothing_to_do. intros filename Hin.
  destruct (detect_text vision filename) as [texts|] eqn:Hd; [|by right].
  left. apply main_processed_elem; [done|]. by rewrite Hd.
Qed.

(** X12.  A file of the list that was unprocessed and whose Vision call returns
    annotations is stored, after the run, with the concatenation of their
    descriptions (the empty string when there are none). *)
Theorem main_stores_descriptions (word_tokenize : string → list string)
    (vision : string → execute_outcome) (fileslist : list string)
    (index : Index) (filename : string) (texts : list annotation) :
  filename ∈ fileslist →
  redis_docs_client index !! filename = None →
  detect_text vision filename = Some texts →
  redis_docs_client (main word_tokenize vision index fileslist) !! filename =
    Some (concat_descriptions texts).
Proof.
  revert index. unfold main.
  induction fileslist as [|input_filename fileslist IH];
    intros index Hin Hnone Hd.
  { by apply elem_of_nil in Hin. }
  cbn [foldl].
  destruct (decide (input_filename = filename)) as [->|Hne].
  - pose proof (get_text_from_file_stores word_tokenize vision index
                  filename texts Hd) as Hst.
    rewrite <-main_step_unprocessed in Hst by done.
    destruct (main_frame word_tokenize vision fileslist
                (main_step word_tokenize vision index filename) filename)
      as [Hdoc _]; [left; rewrite Hst; by eauto|].
    unfold main in Hdoc. by rewrite Hdoc.
  - apply IH; [|by rewrite (proj1 (main_step_other _ _ _ _ _ Hne))|done].
    apply elem_of_cons in Hin as [?|?]; [by subst|done].
Qed.

Lemma main_stores_descriptions_witness :
  "c.png" ∈ ["img1.png"; "b.png"; "c.png"; "d.png"] ∧
  redis_docs_client example_index !! "c.png" = None ∧
  detect_text example_vision "c.png" =
    Some [mkAnnotation (Some "Dogs "); mkAnnotation None;
          mkAnnotation (Some "run")] ∧
  redis_docs_client
    (main whitespace_tokenize example_vision example_index
          ["img1.png"; "b.png"; "c.png"; "d.png"]) !! "c.png" =
  Some (concat_descriptions
          [mkAnnotation (Some "Dogs "); mkAnnotation None;
           mkAnnotation (Some "run")]).
Proof.
  assert ("c.png" ∈ ["img1.png"; "b.png"; "c.png"; "d.png"]) as Hin.
  { by_evaluation. }
  assert (redis_docs_client example_index !! "c.png" = None) as Hnone.
  { by_evaluation. }
  assert (detect_text example_vision "c.png" =
          Some [mkAnnotation (Some "Dogs "); mkAnnotation None;
                mkAnnotation (Some "run")]) as Hd.
  { reflexivity. }
  split; [exact Hin|]. split; [exact Hnone|]. split; [exact Hd|].
  exact (main_stores_descriptions whitespace_tokenize example_vision
           ["img1.png"; "b.png"; "c.png"; "d.png"] example_index "c.png"
           _ Hin Hnone Hd).
Defined.

(** X13.  A run touches only the files of its list: any other file keeps its
    entry in db 1 and is in the same postings as before. *)
Theorem main_only_listed (word_tokenize : string → list string)
    (vision : string → execute_outcome) (fileslist : list string)
    (index : Index) (filename : string) :
  filename ∉ fileslist →
  redis_docs_client (main word_tokenize vision index fileslist) !! filename =
    redis_docs_client index !! filename ∧
  ∀ term,
    filename ∈ redis.smembers
      (redis_token_client (main word_tokenize vision index fileslist)) term ↔
    filename ∈ redis.smembers (redis_token_client index) term.
Proof.
  revert index. unfold main.
  induction fileslist as [|input_filename fileslist IH]; intros index Hnot.
  { done. }
  cbn [foldl].
  apply not_elem_of_cons in Hnot as [Hne Hnot].
  destruct (main_step_other word_tokenize vision index input_filename
              filename) as [Hdoc Htok]; [done|].
  destruct (IH (main_step word_tokenize vision index input_filename) Hnot)
    as [Hdoc' Htok'].
  split; [by rewrite Hdoc'|].
  intros term. by rewrite Htok'.
Qed.

Lemma main_only_listed_witness :
  ("img1.png" ∉ ["b.png"; "c.png"; "d.png"]) ∧
  redis_docs_client
    (main whitespace_tokenize example_vision example_index
          ["b.png"; "c.png"; "d.png"]) !! "img1.png" =
  redis_docs_client example_index !! "img1.png".
Proof.
  assert ("img1.png" ∉ ["b.png"; "c.png"; "d.png"]) as Hnot.
  { by_evaluation. }
  split; [exact Hnot|].
  exact (proj1 (main_only_listed whitespace_tokenize example_vision
                  ["b.png"; "c.png"; "d.png"] example_index "img1.png" Hnot)).
Defined.


(** ** The invariant of the index *)

Section Invariant.

Variable word_tokenize : string → list string.

(** The terms of a document depend on the index only through its stemmer
    and its stopwords. *)
Lemma normalize_ext (self self' : Index) document :
  stemmer self = stemmer self' →
  stopwords self = stopwords self' →
  normalize word_tokenize self document =
  normalize word_tokenize self' document.
Proof.
  destruct self, self'; simpl. intros -> ->. reflexivity.
Qed.

Lemma index_invariant_empty (self : Index) :
  redis_token_client self = ∅ →
  redis_docs_client self = ∅ →
  index_invariant word_tokenize self.
Proof.
  intros Htok Hdoc term id. rewrite Htok, Hdoc. unfold redis.smembers.
  rewrite lookup_empty. simpl. split.
  - by intros ?%not_elem_of_empty.
  - intros (text & Hsome & _). by rewrite lookup_empty in Hsome.
Qed.

(** A file without entry in db 1 is in no posting. *)
Lemma index_invariant_unprocessed (self : Index) filename term :
  index_invariant word_tokenize self →
  redis_docs_client self !! filename = None →
  filename ∉ redis.smembers (redis_token_client self) term.
Proof.
  intros Hinv Hnone Hin. apply Hinv in Hin as (text & Hsome & _).
  congruence.
Qed.

Lemma index_invariant_add (self : Index) filename document :
  index_invariant word_tokenize self →
  redis_docs_client self !! filename = None →
  index_invariant word_tokenize (add word_tokenize self filename document).
Proof.
  intros Hinv Hnone term id.
  rewrite elem_of_smembers_add, docs_add.
  setoid_rewrite normalize_add.
  destruct (decide (id = filename)) as [->|Hne].
  - rewrite lookup_insert_eq. split.
    + intros [Hin|[_ Hin]].
      * by apply (index_invariant_unprocessed self filename term) in Hin.
      * by exists document.
    + intros (text & [= <-] & Hin). by right.
  - rewrite lookup_insert_ne by done. rewrite (Hinv term id). split.
    + intros [?|[? _]]; done.
    + by left.
Qed.

Lemma index_invariant_set_contains_no_text (self : Index) filename :
  index_invariant word_tokenize self →
  redis_docs_client self !! filename = None →
  normalize word_tokenize self "" = [] →
  index_invariant word_tokenize (set_contains_no_text self filename).
Proof.
  intros Hinv Hnone Hempty term id.
  change (redis_token_client (set_contains_no_text self filename))
    with (redis_token_client self).
  change (redis_docs_client (set_contains_no_text self filename))
    with (<[filename := ""]> (redis_docs_client self)).
  assert (∀ text, normalize word_tokenize
                    (set_contains_no_text self filename) text =
                  normalize word_tokenize self text) as Hnorm by done.
  setoid_rewrite Hnorm.
  destruct (decide (id = filename)) as [->|Hne].
  - rewrite lookup_insert_eq. split.
    + intros Hin.
      by apply (index_invariant_unprocessed self filename term) in Hin.
    + intros (text & [= <-] & Hin). rewrite Hempty in Hin.
      by apply elem_of_nil in Hin.
  - rewrite lookup_insert_ne by done. apply Hinv.
Qed.

Variable vision : string → execute_outcome.

(** The loop of [main] does not touch the configuration of the index. *)
Lemma main_step_config index filename :
  stemmer (main_step word_tokenize vision index filename) = stemmer index ∧
  stopwords (main_step word_tokenize vision index filename) =
    stopwords index.
Proof.
  unfold main_step, get_text_from_file, extract_descriptions.
  destruct (document_is_processed index filename).1; [done|].
  by destruct (detect_text vision filename) as [[|text texts]|].
Qed.

Lemma index_invariant_main_step index filename :
  index_invariant word_tokenize index →
  normalize word_tokenize index "" = [] →
  index_invariant word_tokenize
    (main_step word_tokenize vision index filename).
Proof.
  intros Hinv Hempty.
  destruct (redis_docs_client index !! filename) as [text|] eqn:Hdoc.
  { rewrite main_step_processed by eauto. done. }
  rewrite main_step_unprocessed by done.
  unfold get_text_from_file, extract_descriptions.
  destruct (detect_text vision filename) as [[|text texts]|].
  - by apply index_invariant_set_contains_no_text.
  - by apply index_invariant_add.
  - done.
Qed.

Lemma index_invariant_main_fold (fileslist : list string) index :
  index_invariant word_tokenize index →
  normalize word_tokenize index "" = [] →
  index_invariant word_tokenize
    (main word_tokenize vision index fileslist).
Proof.
  revert index. unfold main.
  induction fileslist as [|filename fileslist IH]; intros index Hinv Hempty.
  { done. }
  cbn [foldl]. apply IH.
  - by apply index_invariant_main_step.
  - destruct (main_step_config index filename) as [Hs Hw].
    by rewrite (normalize_ext _ index "" Hs Hw).
Qed.

End Invariant.

(** X14.  The loop of [main] keeps the invariant of the index, for a tokenizer
    that finds no term in the empty text: after a run that started from an
    index with the invariant (the empty one, for instance), a file is in
    the posting of a term exactly when the term is a term of its stored
    text. *)
Theorem index_invariant_main (word_tokenize : string → list string)
    (vision : string → execute_outcome) (fileslist : list string)
    (index : Index) :
  index_invariant word_tokenize index →
  normalize word_tokenize index "" = [] →
  index_invariant word_tokenize
    (main word_tokenize vision index fileslist).
Proof. apply index_invariant_main_fold. Qed.

Lemma index_invariant_main_witness :
  index_invariant whitespace_tokenize (fresh_index (Some strip_s) ["and"]) ∧
  normalize whitespace_tokenize (fresh_index (Some strip_s) ["and"]) "" =
    [] ∧
  index_invariant whitespace_tokenize
    (main whitespace_tokenize example_vision
       (fresh_index (Some strip_s) ["and"]) ["b.png"; "c.png"; "d.png"]).
Proof.
  assert (index_invariant whitespace_tokenize
            (fresh_index (Some strip_s) ["and"])) as Hinv.
  { apply index_invariant_empty; reflexivity. }
  assert (normalize whitespace_tokenize
            (fresh_index (Some strip_s) ["and"]) "" = []) as Hempty.
  { by_evaluation. }
  split; [exact Hinv|]. split; [exact Hempty|].
  exact (index_invariant_main whitespace_tokenize example_vision
           ["b.png"; "c.png"; "d.png"] (fresh_index (Some strip_s) ["and"])
           Hinv Hempty).
Defined.

(** X15.  In an index with the invariant, a one-word query returns exactly the
    files whose stored text has the stem of the word among its terms, each
    with that text. *)
Theorem lookup_exact (word_tokenize : string → list string) (self : Index)
    (word id : string) (text : option string) :
  index_invariant word_tokenize self →
  (id, text) ∈ lookup self [word] ↔
  ∃ t, text = Some t ∧ redis_docs_client self !! id = Some t ∧
       stem self (lower word) ∈ normalize word_tokenize self t.
Proof.
  intros Hinv. rewrite lookup_one, elem_of_hits, (Hinv _ id). split.
  - intros [(t & Hsome & Hin) ->]. by exists t.
  - intros (t & -> & Hsome & Hin). split; [by exists t|done].
Qed.

Lemma lookup_exact_witness :
  index_invariant whitespace_tokenize example_index ∧
  (("img1.png", Some "Cats and Dogs play") ∈ lookup example_index ["Dogs"] ↔
   ∃ t, Some "Cats and Dogs play" = Some t ∧
        redis_docs_client example_index !! "img1.png" = Some t ∧
        stem example_index (lower "Dogs") ∈
          normalize whitespace_tokenize example_index t).
Proof.
  assert (index_invariant whitespace_tokenize example_index) as Hinv.
  { apply index_invariant_add; [|reflexivity].
    apply index_invariant_empty; reflexivity. }
  split; [exact Hinv|].
  exact (lookup_exact whitespace_tokenize example_index
           "Dogs" "img1.png" (Some "Cats and Dogs play") Hinv).
Defined.

(** X16.  In an index with the invariant, no query returns a file without its
    text. *)
Theorem lookup_has_text (word_tokenize : string → list string) (self : Index)
    (words : list string) (id : string) (text : option string) :
  index_invariant word_tokenize self →
  (id, text) ∈ lookup self words →
  is_Some text.
Proof.
  intros Hinv.
  induction words as [|word words _] using rev_ind.
  - unfold lookup; simpl. by intros ?%not_elem_of_empty.
  - rewrite lookup_snoc. intros Hin.
    assert ((id, text) ∈ lookup self [word]) as Hw.
    { destruct (set_truthy (lookup self words)); [|done].
      by apply elem_of_intersection in Hin as [_ ?]. }
    rewrite lookup_one in Hw. apply elem_of_hits in Hw as [Hp ->].
    apply Hinv in Hp as (t & -> & _). by eauto.
Qed.

Lemma lookup_has_text_witness :
  index_invariant whitespace_tokenize example_index ∧
  ("img1.png", Some "Cats and Dogs play") ∈
    lookup example_index ["zebra"; "Dogs"] ∧
  is_Some (Some "Cats and Dogs play").
Proof.
  assert (index_invariant whitespace_tokenize example_index) as Hinv.
  { apply index_invariant_add; [|reflexivity].
    apply index_invariant_empty; reflexivity. }
  assert (("img1.png", Some "Cats and Dogs play") ∈
            lookup example_index ["zebra"; "Dogs"]) as Hin.
  { by_evaluation. }
  split; [exact Hinv|]. split; [exact Hin|].
  exact (lookup_has_text whitespace_tokenize example_index
           ["zebra"; "Dogs"] "img1.png" (Some "Cats and Dogs play")
           Hinv Hin).
Defined.


(** ** [set_contains_no_text] and the queries *)

Lemma hits_set_contains_no_text self filename (docs_with_word : gset string) :
  filename ∉ docs_with_word →
  hits (set_contains_no_text self filename) docs_with_word =
  hits self docs_with_word.
Proof.
  intros Hnot. apply set_eq. intros [id text]. rewrite !elem_of_hits.
  change (redis_docs_client (set_contains_no_text self filename))
    with (<[filename := ""]> (redis_docs_client self)).
  split; intros [Hin ->]; (split; [done|]).
  - rewrite lookup_insert_ne; [done|]. by intros ->.
  - rewrite lookup_insert_ne; [done|]. by intros ->.
Qed.

(** X17.  Marking as empty a file that is in no posting changes the result of
    no query. *)
Theorem lookup_set_contains_no_text (self : Index) (filename : string)
    (words : list string) :
  (∀ term, filename ∉ redis.smembers (redis_token_client self) term) →
  lookup (set_contains_no_text self filename) words = lookup self words.
Proof.
  intros Hnot. unfold lookup.
  generalize (∅ : gset (string * option string)).
  induction words as [|word words IH]; intros conjunct; cbn [foldl]; [done|].
  rewrite IH. f_equal. unfold lookup_step.
  change (stem (set_contains_no_text self filename) (lower word))
    with (stem self (lower word)).
  change (redis_token_client (set_contains_no_text self filename))
    with (redis_token_client self).
  by rewrite hits_set_contains_no_text.
Qed.

Lemma lookup_set_contains_no_text_witness :
  (∀ term, "img2.png" ∉ redis.smembers (redis_token_client example_index) term) ∧
  lookup (set_contains_no_text example_index "img2.png") ["cats"; "dogs"] =
  lookup example_index ["cats"; "dogs"].
Proof.
  assert (∀ term, "img2.png" ∉
            redis.smembers (redis_token_client example_index) term) as Hnot.
  { intros term.
    apply (index_invariant_unprocessed whitespace_tokenize).
    - apply index_invariant_add; [|reflexivity].
      apply index_invariant_empty; reflexivity.
    - by_evaluation. }
  split; [exact Hnot|].
  exact (lookup_set_contains_no_text example_index "img2.png"
           ["cats"; "dogs"] Hnot).
Defined.


(** ** [print_lookup] *)

(** X18.  [print_lookup] prints the line [No hits found.] exactly when the query
    has no hit, and otherwise one entry per hit. *)
Theorem print_lookup_no_hits (self : Index) (words : list string) :
  (print_lookup self words = ["No hits found."] ↔ lookup self words = ∅) ∧
  List.length (print_lookup self words) =
    if decide (lookup self words = ∅) then 1 else size (lookup self words).
Proof.
  unfold print_lookup, set_truthy.
  destruct (decide (lookup self words = ∅)) as [He|Hne].
  - rewrite bool_decide_eq_false_2 by (by intros ?). done.
  - rewrite bool_decide_eq_true_2 by done. cbn [negb].
    split; [|by rewrite length_fmap].
    split; [|done].
    destruct (elements (lookup self words)) as [|[id text] l] eqn:Hel.
    + by apply elements_empty_inv, leibniz_equiv in Hel.
    + intros Heq. cbn [fmap list_fmap] in Heq. by injection Heq.
Qed.


(** ** [get_words] *)

Example get_words_example :
  get_words "Hello, wor_ld 42!" = ["Hello"; "wor_ld"; "42"].
Proof. by_evaluation. Qed.

Lemma string_app_cons (c : ascii) (s1 s2 : string) :
  String c s1 +:+ s2 = String c (s1 +:+ s2).
Proof. reflexivity. Qed.

Lemma all_word_chars_app (s1 s2 : string) :
  all_word_chars (s1 +:+ s2) = all_word_chars s1 && all_word_chars s2.
Proof.
  induction s1 as [|c s1 IH]; [done|].
  rewrite string_app_cons. cbn [all_word_chars].
  by rewrite IH, andb_assoc.
Qed.

Lemma elem_of_emit_word (word w : string) :
  w ∈ emit_word word ↔ w = word ∧ word ≠ "".
Proof.
  unfold emit_word. case_bool_decide.
  - rewrite elem_of_nil. naive_solver.
  - rewrite list_elem_of_singleton. naive_solver.
Qed.

(** The words found once the run [word] has been read. *)
Lemma findall_words_valid (text word w : string) :
  all_word_chars word = true →
  w ∈ findall_words word text →
  w ≠ "" ∧ all_word_chars w = true.
Proof.
  revert word. induction text as [|c text IH]; intros word Hword;
    cbn [findall_words].
  { intros [-> ?]%elem_of_emit_word. done. }
  destruct (word_char c) eqn:Hc.
  - apply IH. rewrite all_word_chars_app, Hword. cbn. by rewrite Hc.
  - intros [[-> ?]%elem_of_emit_word|Hin]%elem_of_app; [done|].
    by apply (IH "").
Qed.

Lemma findall_words_separator (text1 text2 word : string) (c : ascii) :
  word_char c = false →
  findall_words word (text1 +:+ String c text2) =
  (findall_words word text1 ++ findall_words "" text2)%list.
Proof.
  intros Hc. revert word.
  induction text1 as [|a text1 IH]; intros word.
  { change ("" +:+ String c text2) with (String c text2).
    cbn [findall_words]. by rewrite Hc. }
  rewrite string_app_cons. cbn [findall_words].
  destruct (word_char a).
  - apply IH.
  - by rewrite IH, <-app_assoc.
Qed.

Lemma findall_words_run (text word : string) :
  all_word_chars text = true →
  findall_words word text = emit_word (word +:+ text).
Proof.
  revert word. induction text as [|c text IH]; intros word Hall;
    cbn [findall_words].
  { by rewrite string_app_nil_r. }
  cbn [all_word_chars] in Hall. apply andb_true_iff in Hall as [Hc Hall].
  rewrite Hc, IH by done. by rewrite <-string_app_assoc.
Qed.

(** X19.  Every word that [get_words] returns is a non-empty string of letters,
    digits and underscores. *)
Theorem get_words_valid (text w : string) :
  w ∈ get_words text →
  w ≠ "" ∧ all_word_chars w = true.
Proof. by apply findall_words_valid. Qed.

Lemma get_words_valid_witness :
  "wor_ld" ∈ get_words "Hello, wor_ld 42!" ∧
  "wor_ld" ≠ "" ∧ all_word_chars "wor_ld" = true.
Proof.
  assert ("wor_ld" ∈ get_words "Hello, wor_ld 42!") as Hin.
  { by_evaluation. }
  split; [exact Hin|].
  exact (get_words_valid "Hello, wor_ld 42!" "wor_ld" Hin).
Defined.

(** X20.  A character that is no word character separates: the words of a text
    around it are the words before it followed by the words after it. *)
Theorem get_words_separator (text1 text2 : string) (c : ascii) :
  word_char c = false →
  get_words (text1 +:+ String c text2) =
  (get_words text1 ++ get_words text2)%list.
Proof. apply findall_words_separator. Qed.

Lemma get_words_separator_witness :
  word_char ","%char = false ∧
  get_words ("cats" +:+ String ","%char "dogs 4") =
  (get_words "cats" ++ get_words "dogs 4")%list.
Proof.
  assert (word_char ","%char = false) as Hc by reflexivity.
  split; [exact Hc|].
  exact (get_words_separator "cats" "dogs 4" ","%char Hc).
Defined.

(** X21.  A non-empty text made of word characters only is its own single word;
    the empty text has no word. *)
Theorem get_words_run (text : string) :
  all_word_chars text = true →
  get_words text = if bool_decide (text = "") then [] else [text].
Proof. intros Hall. unfold get_words. by rewrite findall_words_run. Qed.

Lemma get_words_run_witness :
  all_word_chars "img_01" = true ∧
  get_words "img_01" = if bool_decide ("img_01" = "") then [] else ["img_01"].
Proof.
  assert (all_word_chars "img_01" = true) as Hall by reflexivity.
  split; [exact Hall|].
  exact (get_words_run "img_01" Hall).
Defined.


(** ** Queries across runs *)

(** A run of [main] does not touch the configuration of the index. *)
Lemma main_config word_tokenize vision (fileslist : list string) index :
  stemmer (main word_tokenize vision index fileslist) = stemmer index ∧
  stopwords (main word_tokenize vision index fileslist) = stopwords index.
Proof.
  revert index. unfold main.
  induction fileslist as [|filename fileslist IH]; intros index; [done|].
  cbn [foldl].
  destruct (IH (main_step word_tokenize vision index filename)) as [Hs Hw].
  destruct (main_step_config word_tokenize vision index filename)
    as [Hs' Hw'].
  split; congruence.
Qed.

(** X22.  A file that a one-word query returns with its text is still returned,
    with the same text, after any run of [main]. *)
Theorem lookup_main_monotone (word_tokenize : string → list string)
    (vision : string → execute_outcome) (fileslist : list string)
    (index : Index) (word id text : string) :
  (id, Some text) ∈ lookup index [word] →
  (id, Some text) ∈
    lookup (main word_tokenize vision index fileslist) [word].
Proof.
  rewrite !lookup_one, !elem_of_hits. intros [Hin Hdoc].
  destruct (main_frame word_tokenize vision fileslist index id)
    as [Hdoc' Htok].
  { left. rewrite <-Hdoc. by eauto. }
  destruct (main_config word_tokenize vision fileslist index) as [Hs _].
  split; [|by rewrite Hdoc'].
  assert (stem (main word_tokenize vision index fileslist) (lower word) =
          stem index (lower word)) as ->.
  { unfold stem. by rewrite Hs. }
  by apply Htok.
Qed.

Lemma lookup_main_monotone_witness :
  ("img1.png", Some "Cats and Dogs play") ∈ lookup example_index ["Dogs"] ∧
  ("img1.png", Some "Cats and Dogs play") ∈
    lookup (main whitespace_tokenize example_vision example_index
              ["img1.png"; "b.png"; "c.png"; "d.png"]) ["Dogs"].
Proof.
  assert (("img1.png", Some "Cats and Dogs play") ∈
            lookup example_index ["Dogs"]) as Hin.
  { by_evaluation. }
  split; [exact Hin|].
  exact (lookup_main_monotone whitespace_tokenize example_vision
           ["img1.png"; "b.png"; "c.png"; "d.png"] example_index
           "Dogs" "img1.png" "Cats and Dogs play" Hin).
Defined.
